(** * ROHC: CID framing on the compressor side and list-decompressor tables

    A shallow embedding of
      - [src/comp/cid.c]        : [c_add_cid], [code_cid_values];
      - [d_generic.h]           : [MAX_ITEM], [LIST_COMP_WINDOW], [struct list_decomp];
      - [comp_list.h]           : the list item, list and translation structs.

    C integers are mathematical integers ([Z]); a conversion to
    [unsigned char] is written out as a reduction modulo 256.  Bit operations
    are the two's complement ones of [Z] ([Z.land], [Z.lor], [Z.shiftr]), which
    agree with C's on [int] and [uint32_t] operands. *)

From Stdlib Require Import ZArith Lia Bool String.
From stdpp Require Import base option list.

Local Open Scope Z_scope.

(** ** Bytes and buffers *)

(** Conversion of an [int] value to [unsigned char]. *)
Definition to_uchar (z : Z) : Z := z mod 256.

(** ** comp_list.h *)

Module CompList.

(** [ext_header_version]: the IPv6 extension header kinds (the CSRC entry is
    compiled out by [#if 0]). *)
Inductive ext_header_version : Type := HBH | DEST | RTHDR | AH.

(** The enumerators' values. *)
Definition ext_header_version_value (v : ext_header_version) : Z :=
  match v with
  | HBH => 0
  | DEST => 60
  | RTHDR => 43
  | AH => 51
  end.

(** [struct rohc_list_item]; [data] is the byte block the pointer designates. *)
Record rohc_list_item : Type := {
  type : ext_header_version;
  length : Z;
  data : list Z
}.

(** [struct list_elt]; the [next_elt]/[prev_elt] links are the neighbours in
    the Rocq list that holds the elements of a [c_list]. *)
Record list_elt : Type := {
  item : rohc_list_item;
  index_table : Z
}.

(** [struct c_list]. *)
Record c_list : Type := {
  gen_id : Z;
  first_elt : list list_elt
}.

(** [struct d_translation]; a null [item] pointer is [None]. *)
Record d_translation : Type := {
  known : Z;
  d_item : option rohc_list_item
}.

End CompList.

(** ** d_generic.h *)

Module DGeneric.

(** [#define MAX_ITEM 15] *)
Definition MAX_ITEM : Z := 15.

(** The outcome of a preprocessor conditional guarding an [#error]. *)
Inductive cpp_outcome : Type :=
  | cpp_ok
  | cpp_error (msg : string).

(** [#if MAX_ITEM <= 7 / #error "..." / #endif], as a function of the value
    the macro expands to. *)
Definition MAX_ITEM_check (max_item : Z) : cpp_outcome :=
  if max_item <=? 7
  then cpp_error "translation table must be larger enough for indexes stored on 3 bits"
  else cpp_ok.

(** [#define LIST_COMP_WINDOW 100] *)
Definition LIST_COMP_WINDOW : Z := 100.

(** [#define L 5] *)
Definition L : Z := 5.

(** A C array [A name[n]]: exactly [n] elements. *)
Record array (A : Type) (n : Z) : Type := mk_array {
  elems : list A;
  elems_len : Z.of_nat (List.length elems) = n
}.
Arguments mk_array {A n} _ _.
Arguments elems {A n} _.
Arguments elems_len {A n} _.

(** [a[i]]: defined for [0 <= i < n] only. *)
Definition array_get {A : Type} {n : Z} (a : array A n) (i : Z) : option A :=
  if 0 <=? i then elems a !! Z.to_nat i else None.

(** [struct list_decomp].  A null [struct c_list *] is [None].  The field
    [list_decomp] of the C struct is [list_decomp_flag] here (the struct has
    that name); the five handlers (function pointers) carry no data and are
    left out. *)
Record list_decomp : Type := {
  ref_list : option CompList.c_list;
  list_table : array (option CompList.c_list) LIST_COMP_WINDOW;
  based_table : array CompList.rohc_list_item MAX_ITEM;
  trans_table : array CompList.d_translation MAX_ITEM;
  counter_list : Z;
  counter : Z;
  list_decomp_flag : Z;
  ref_ok : Z;
  size_ext : Z
}.

(** The list generations held by the window: the non-null entries of
    [list_table]. *)
Definition window_entries (d : list_decomp) : list CompList.c_list :=
  omap id (elems (list_table d)).

(** A sample value: the struct filled with zeros (no list in the window, no
    item known). *)
Definition zeroed_list_decomp : list_decomp := {|
  ref_list := None;
  list_table := mk_array (replicate 100 None) eq_refl;
  based_table :=
    mk_array (replicate 15 {| CompList.type := CompList.HBH;
                              CompList.length := 0;
                              CompList.data := [] |}) eq_refl;
  trans_table :=
    mk_array (replicate 15 {| CompList.known := 0; CompList.d_item := None |}) eq_refl;
  counter_list := 0;
  counter := 0;
  list_decomp_flag := 0;
  ref_ok := 0;
  size_ext := 0
|}.

End DGeneric.

(** ** The compressor context, as far as cid.c reads it *)

Module Comp.

(** Modelled from the spec: the declaration of [rohc_cid_type] (rohc.h) is not
    among the sources; section 6 of the specification has
    [cid_type] in {SMALL, LARGE}, a channel-wide setting. *)
Inductive rohc_cid_type : Type := LARGE_CID | SMALL_CID.

(** Modelled from the spec: [struct medium], [struct rohc_comp] and
    [struct c_context] (rohc_comp.h) are not among the sources; these records
    hold the fields that cid.c reads: [context->compressor->medium.cid_type]
    and [context->cid] (an [int]). *)
Record medium_t : Type := { cid_type : rohc_cid_type }.
Record rohc_comp : Type := { medium : medium_t }.
Record c_context : Type := {
  cid : Z;
  compressor : rohc_comp
}.

End Comp.

(** ** SDVL *)

Module Sdvl.

(** Modelled from the spec: sdvl.c ([c_bytesSdvl], [c_encodeSdvl] and the
    decoder) is not among the sources.  Section 4.1 of the specification gives
    the format: [0xxxxxxx] is a 7-bit value in 1 byte, [10xxxxxx ...] 14 bits
    in 2 bytes, [110xxxxx ...] 21 bits in 3 bytes, [111xxxxx ...] 29 bits in 4
    bytes, most significant byte first (CID 300 is [0x81 0x2C]).  The
    specification describes neither values of 2^29 and more nor the third
    argument, which is -1 at the calls in cid.c: the model is undefined
    ([None]) there. *)
Definition c_bytesSdvl (value length : Z) : option Z :=
  if negb (length =? -1) then None
  else if value <? 0 then None
  else if value <? 2 ^ 7 then Some 1
  else if value <? 2 ^ 14 then Some 2
  else if value <? 2 ^ 21 then Some 3
  else if value <? 2 ^ 29 then Some 4
  else None.

(** Modelled from the spec: the bytes of the SDVL encoding of [value]
    (section 4.1), shortest form. *)
Definition sdvl_bytes (value : Z) : option (list Z) :=
  if value <? 0 then None
  else if value <? 2 ^ 7 then
    Some [Z.land value 0x7f]
  else if value <? 2 ^ 14 then
    Some [Z.lor 0x80 (Z.land (Z.shiftr value 8) 0x3f);
          Z.land value 0xff]
  else if value <? 2 ^ 21 then
    Some [Z.lor 0xc0 (Z.land (Z.shiftr value 16) 0x1f);
          Z.land (Z.shiftr value 8) 0xff;
          Z.land value 0xff]
  else if value <? 2 ^ 29 then
    Some [Z.lor 0xe0 (Z.land (Z.shiftr value 24) 0x1f);
          Z.land (Z.shiftr value 16) 0xff;
          Z.land (Z.shiftr value 8) 0xff;
          Z.land value 0xff]
  else None.

(** Modelled from the spec: [c_encodeSdvl(dest, value, length)] writes the
    encoding at the start of the buffer [dest] points into, and nothing else;
    a buffer too short for it is a write out of bounds ([None]). *)
Definition c_encodeSdvl (dest : list Z) (value length : Z) : option (list Z) :=
  if negb (length =? -1) then None
  else
    bytes ← sdvl_bytes value;
    if decide (List.length bytes <= List.length dest)%nat
    then Some (bytes ++ drop (List.length bytes) dest)
    else None.

(** Modelled from the spec: the decoder of section 4.1.  It reads the prefix
    of the first byte and returns the value with the number of bytes read; it
    fails (the MALFORMED error of section 7) when the buffer is shorter than
    the prefix implies. *)
Definition sdvl_decode (data : list Z) : option (Z * Z) :=
  match data with
  | [] => None
  | b0 :: rest =>
    if Z.shiftr b0 7 =? 0 then
      Some (Z.land b0 0x7f, 1)
    else if Z.shiftr b0 6 =? 2 then
      match rest with
      | b1 :: _ => Some (Z.lor (Z.shiftl (Z.land b0 0x3f) 8) b1, 2)
      | _ => None
      end
    else if Z.shiftr b0 5 =? 6 then
      match rest with
      | b1 :: b2 :: _ =>
        Some (Z.lor (Z.shiftl (Z.land b0 0x1f) 16) (Z.lor (Z.shiftl b1 8) b2), 3)
      | _ => None
      end
    else if Z.shiftr b0 5 =? 7 then
      match rest with
      | b1 :: b2 :: b3 :: _ =>
        Some (Z.lor (Z.shiftl (Z.land b0 0x1f) 24)
                (Z.lor (Z.shiftl b1 16) (Z.lor (Z.shiftl b2 8) b3)), 4)
      | _ => None
      end
    else None
  end.

End Sdvl.

(** ** cid.c *)

Module Cid.
Import Comp.

(** [unsigned char c_add_cid(int cid)]:
<<
    unsigned char ret_value = 0xe0;
    ret_value |= (cid & 0x0f);
    return ret_value;
>> *)
Definition c_add_cid (cid : Z) : Z :=
  let ret_value := 0xe0 in
  let ret_value := to_uchar (Z.lor ret_value (Z.land cid 0x0f)) in
  ret_value.

(** The memory [code_cid_values] writes to: the object [dest] points to (its
    real extent, whatever [dest_size] says) and the [int] that
    [first_position] points to, two separate objects. *)
Record mem : Type := {
  dest : list Z;
  first_position : Z
}.

(** Commands: a state monad over [mem] with failure.  [None] is undefined
    behaviour of the C program (an access outside the object). *)
Definition M (A : Type) : Type := mem -> option (A * mem).

#[export] Instance M_ret : MRet M := fun A (a : A) m => Some (a, m).

#[export] Instance M_bind : MBind M := fun A B (k : A -> M B) (c : M A) m =>
  match c m with
  | Some (a, m') => k a m'
  | None => None
  end.

(** [dest[i] = v] *)
Definition store_dest (i v : Z) : M unit := fun m =>
  if (0 <=? i) && (i <? Z.of_nat (List.length (dest m)))
  then Some (tt, {| dest := <[Z.to_nat i := v]> (dest m);
                    first_position := first_position m |})
  else None.

(** [*first_position = v] *)
Definition store_first_position (v : Z) : M unit := fun m =>
  Some (tt, {| dest := dest m; first_position := v |}).

(** [f(&dest[i], ...)]: a callee that receives a pointer into [dest] sees the
    buffer from offset [i] on and leaves the bytes before it alone. *)
Definition call_at_dest (i : Z) (f : list Z -> option (list Z)) : M unit := fun m =>
  if (0 <=? i) && (i <=? Z.of_nat (List.length (dest m)))
  then
    match f (drop (Z.to_nat i) (dest m)) with
    | Some d' => Some (tt, {| dest := take (Z.to_nat i) (dest m) ++ d';
                              first_position := first_position m |})
    | None => None
    end
  else None.

(** The result of a callee that touches no memory. *)
Definition call_pure {A : Type} (r : option A) : M A := fun m =>
  match r with
  | Some a => Some (a, m)
  | None => None
  end.

Section CodeCidValues.

(** The two functions of sdvl.c that [code_cid_values] calls; sdvl.c is not
    among the sources, so they are parameters here.
    [c_encodeSdvl buf value length] is the buffer [buf] (the object from the
    pointer argument on) after the call; its own result is dropped by the
    caller.  [c_bytesSdvl value length] is the [int] returned.  [None] is a
    call whose behaviour is not defined. *)
Variable c_encodeSdvl : list Z -> Z -> Z -> option (list Z).
Variable c_bytesSdvl : Z -> Z -> option Z.

(** [int code_cid_values(struct c_context *context, unsigned char *dest,
                         int dest_size, int *first_position)].
    The [rohc_debugf] traces only read [dest] and are left out. *)
Definition code_cid_values (context : c_context) (dest_size : Z) : M Z :=
  let counter := 0 in
  match cid_type (medium (compressor context)) with
  | SMALL_CID =>
    if cid context >? 0 then
      store_dest counter (c_add_cid (cid context)) ;;
      store_first_position 1 ;;
      let counter := 2 in
      mret counter
    else
      store_first_position 0 ;;
      let counter := 1 in
      mret counter
  | _ =>
    store_first_position 0 ;;
    let counter := counter + 1 in
    call_at_dest counter (fun d => c_encodeSdvl d (cid context) (-1)) ;;
    len ← call_pure (c_bytesSdvl (cid context) (-1)) ;
    let counter := counter + len in
    mret counter
  end.

End CodeCidValues.

(** [code_cid_values] linked with the SDVL functions. *)
Definition code_cid_values_sdvl : c_context -> Z -> M Z :=
  code_cid_values Sdvl.c_encodeSdvl Sdvl.c_bytesSdvl.

(** Sample inputs: a context of a channel of the given kind with the given
    CID, and a 6-byte packet buffer with a stale [*first_position]. *)
Definition example_context (ty : rohc_cid_type) (c : Z) : c_context :=
  {| cid := c; compressor := {| medium := {| cid_type := ty |} |} |}.

Definition example_mem : mem :=
  {| dest := [0x11; 0x22; 0x33; 0x44; 0x55; 0x66]; first_position := 77 |}.

End Cid.

(** * Properties *)

(** ** Bit operations as arithmetic *)

(** An "or" of a shifted value with a value below the shift is a sum. *)
Lemma lor_shiftl_low (hi lo k : Z) :
  0 <= k -> 0 <= lo < 2 ^ k -> Z.lor (Z.shiftl hi k) lo = hi * 2 ^ k + lo.
Proof.
  intros Hk Hlo.
  rewrite <- Z.shiftl_mul_pow2 by exact Hk.
  symmetry. apply Z.add_nocarry_lor.
  apply Z.bits_inj'. intros n Hn.
  rewrite Z.land_spec, Z.bits_0.
  destruct (Z.lt_ge_cases n k) as [Hlt | Hge].
  - rewrite Z.shiftl_spec_low by exact Hlt. reflexivity.
  - assert (Z.testbit lo n = false) as ->; [| apply andb_false_r].
    destruct (Z.eq_dec lo 0) as [-> | Hne]; [apply Z.bits_0 |].
    apply Z.bits_above_log2; [lia |].
    apply Z.log2_lt_pow2; [lia |].
    apply Z.lt_le_trans with (2 ^ k); [lia |].
    apply Z.pow_le_mono_r; lia.
Qed.

(** ** The add-CID octet *)

Section AddCid.
Import Cid.

Lemma land_0x0f (cid : Z) : Z.land cid 0x0f = cid mod 16.
Proof. exact (Z.land_ones cid 4 ltac:(lia)). Qed.

Lemma lor_0xe0_nibble (n : Z) : 0 <= n < 16 -> Z.lor 0xe0 n = 0xe0 + n.
Proof.
  intros Hn. change 0xe0 with (Z.shiftl 7 5) at 1.
  rewrite lor_shiftl_low by lia. reflexivity.
Qed.

(** The octet in closed form: [0xe0] plus the low nibble of the argument. *)
Lemma c_add_cid_eq (cid : Z) : c_add_cid cid = 0xe0 + cid mod 16.
Proof.
  unfold c_add_cid, to_uchar. rewrite land_0x0f.
  pose proof (Z.mod_pos_bound cid 16 ltac:(lia)) as Hm.
  rewrite lor_0xe0_nibble by exact Hm.
  apply Z.mod_small. lia.
Qed.

(** The conversion to [unsigned char] never wraps here. *)
Lemma c_add_cid_lor (cid : Z) : c_add_cid cid = Z.lor 0xe0 (Z.land cid 0x0f).
Proof.
  rewrite c_add_cid_eq, land_0x0f.
  rewrite lor_0xe0_nibble by (apply Z.mod_pos_bound; lia). reflexivity.
Qed.

Example c_add_cid_5 : c_add_cid 5 = 0xe5.
Proof. reflexivity. Qed.

Example c_add_cid_minus_1 : c_add_cid (-1) = 0xef.
Proof. reflexivity. Qed.

Example c_add_cid_21 : c_add_cid 21 = 0xe5.
Proof. reflexivity. Qed.

(** C1. For every CID [c] in [0,15], the octet computed by [c_add_cid] is
    [0xE0 | (c & 0x0F)]: its high nibble is 1110 (0xE) and its low nibble is
    [c]. *)
Theorem c_add_cid_small_cid (c : Z) :
  0 <= c <= 15 ->
  c_add_cid c = Z.lor 0xE0 (Z.land c 0x0F) /\
  Z.shiftr (c_add_cid c) 4 = 0xE /\
  Z.land (c_add_cid c) 0x0F = c.
Proof.
  intros Hc. rewrite c_add_cid_eq.
  rewrite !land_0x0f.
  rewrite (Z.mod_small c 16) by lia.
  rewrite lor_0xe0_nibble by lia.
  rewrite Z.shiftr_div_pow2 by lia. change (2 ^ 4) with 16.
  repeat split; Z.to_euclidean_division_equations; lia.
Qed.

Lemma c_add_cid_small_cid_witness :
  c_add_cid 9 = Z.lor 0xE0 (Z.land 9 0x0F) /\
  Z.shiftr (c_add_cid 9) 4 = 0xE /\
  Z.land (c_add_cid 9) 0x0F = 9.
Proof. apply (c_add_cid_small_cid 9). lia. Defined.

(** C8. For every argument of [c_add_cid] (above 15 and negative ones too)
    the result is a byte between [0xE0] and [0xEF], fixed by the low 4 bits
    of the argument: two arguments congruent modulo 16 give the same octet. *)
Theorem c_add_cid_low_nibble_only (cid : Z) :
  0xE0 <= c_add_cid cid <= 0xEF /\
  c_add_cid cid = 0xE0 + Z.land cid 0x0F /\
  (forall cid' : Z, cid mod 16 = cid' mod 16 -> c_add_cid cid = c_add_cid cid').
Proof.
  rewrite c_add_cid_eq, land_0x0f.
  pose proof (Z.mod_pos_bound cid 16 ltac:(lia)).
  split; [lia |]. split; [reflexivity |].
  intros cid' Hcong. rewrite c_add_cid_eq, Hcong. reflexivity.
Qed.

Lemma c_add_cid_low_nibble_only_witness :
  0xE0 <= c_add_cid (-1) <= 0xEF /\ c_add_cid (-1) = c_add_cid 31.
Proof.
  destruct (c_add_cid_low_nibble_only (-1)) as (Hrange & _ & Hsame).
  split; [exact Hrange | apply Hsame; reflexivity].
Defined.

End AddCid.

(** ** SDVL: decoding what was encoded *)

Section SdvlFacts.
Import Sdvl.

(** The masks and shifts of the SDVL code, as quotients and remainders. *)
Lemma land_0x7f x : Z.land x 0x7f = x mod 128.
Proof. exact (Z.land_ones x 7 ltac:(lia)). Qed.
Lemma land_0x3f x : Z.land x 0x3f = x mod 64.
Proof. exact (Z.land_ones x 6 ltac:(lia)). Qed.
Lemma land_0x1f x : Z.land x 0x1f = x mod 32.
Proof. exact (Z.land_ones x 5 ltac:(lia)). Qed.
Lemma land_0xff x : Z.land x 0xff = x mod 256.
Proof. exact (Z.land_ones x 8 ltac:(lia)). Qed.

Lemma shiftr_div x k q : 0 <= k -> 2 ^ k = q -> Z.shiftr x k = x / q.
Proof. intros Hk <-. apply Z.shiftr_div_pow2, Hk. Qed.

Lemma lor_prefix p k q x :
  0 <= k -> 2 ^ k = q -> 0 <= x < q -> Z.lor (Z.shiftl p k) x = p * q + x.
Proof. intros Hk <- Hx. apply lor_shiftl_low; assumption. Qed.

Lemma lor_shifted x k q y :
  0 <= k -> 2 ^ k = q -> 0 <= y < q -> Z.lor (Z.shiftl x k) y = x * q + y.
Proof. intros Hk <- Hy. apply lor_shiftl_low; assumption. Qed.

Ltac ediv := Z.to_euclidean_division_equations; lia.

Lemma sdvl_decode_1 v rest :
  0 <= v < 2 ^ 7 -> sdvl_decode (Z.land v 0x7f :: rest) = Some (v, 1).
Proof.
  intros Hv. unfold sdvl_decode.
  rewrite !land_0x7f, (shiftr_div _ 7 128) by (reflexivity || lia).
  change (2 ^ 7) with 128 in Hv.
  replace (v mod 128 / 128 =? 0) with true by (symmetry; apply Z.eqb_eq; ediv).
  f_equal. f_equal. ediv.
Qed.

Lemma sdvl_decode_2 v rest :
  2 ^ 7 <= v < 2 ^ 14 ->
  sdvl_decode (Z.lor 0x80 (Z.land (Z.shiftr v 8) 0x3f) :: Z.land v 0xff :: rest)
  = Some (v, 2).
Proof.
  intros Hv. unfold sdvl_decode.
  change (2 ^ 7) with 128 in Hv. change (2 ^ 14) with 16384 in Hv.
  rewrite !land_0x3f, !land_0xff, (shiftr_div v 8 256) by (reflexivity || lia).
  change 0x80 with (Z.shiftl 2 6).
  rewrite (lor_prefix 2 6 64) by (reflexivity || lia || ediv).
  rewrite (shiftr_div _ 7 128), (shiftr_div _ 6 64) by (reflexivity || lia).
  replace (_ / 128 =? 0) with false by (symmetry; apply Z.eqb_neq; ediv).
  replace (_ / 64 =? 2) with true by (symmetry; apply Z.eqb_eq; ediv).
  rewrite (lor_shifted _ 8 256) by (reflexivity || lia || ediv).
  f_equal. f_equal. ediv.
Qed.

Lemma sdvl_decode_3 v rest :
  2 ^ 14 <= v < 2 ^ 21 ->
  sdvl_decode (Z.lor 0xc0 (Z.land (Z.shiftr v 16) 0x1f)
               :: Z.land (Z.shiftr v 8) 0xff :: Z.land v 0xff :: rest)
  = Some (v, 3).
Proof.
  intros Hv. unfold sdvl_decode.
  change (2 ^ 14) with 16384 in Hv. change (2 ^ 21) with 2097152 in Hv.
  rewrite !land_0x1f, !land_0xff, (shiftr_div v 8 256), (shiftr_div v 16 65536)
    by (reflexivity || lia).
  change 0xc0 with (Z.shiftl 6 5).
  rewrite (lor_prefix 6 5 32) by (reflexivity || lia || ediv).
  rewrite (shiftr_div _ 7 128), (shiftr_div _ 6 64), (shiftr_div _ 5 32)
    by (reflexivity || lia).
  replace (_ / 128 =? 0) with false by (symmetry; apply Z.eqb_neq; ediv).
  replace (_ / 64 =? 2) with false by (symmetry; apply Z.eqb_neq; ediv).
  replace (_ / 32 =? 6) with true by (symmetry; apply Z.eqb_eq; ediv).
  rewrite (lor_shifted _ 8 256) by (reflexivity || lia || ediv).
  rewrite (lor_shifted _ 16 65536) by (reflexivity || lia || ediv).
  f_equal. f_equal. ediv.
Qed.

Lemma sdvl_decode_4 v rest :
  2 ^ 21 <= v < 2 ^ 29 ->
  sdvl_decode (Z.lor 0xe0 (Z.land (Z.shiftr v 24) 0x1f)
               :: Z.land (Z.shiftr v 16) 0xff
               :: Z.land (Z.shiftr v 8) 0xff :: Z.land v 0xff :: rest)
  = Some (v, 4).
Proof.
  intros Hv. unfold sdvl_decode.
  change (2 ^ 21) with 2097152 in Hv. change (2 ^ 29) with 536870912 in Hv.
  rewrite !land_0x1f, !land_0xff, (shiftr_div v 8 256), (shiftr_div v 16 65536),
    (shiftr_div v 24 16777216) by (reflexivity || lia).
  change 0xe0 with (Z.shiftl 7 5).
  rewrite (lor_prefix 7 5 32) by (reflexivity || lia || ediv).
  rewrite (shiftr_div _ 7 128), (shiftr_div _ 6 64), (shiftr_div _ 5 32)
    by (reflexivity || lia).
  replace (_ / 128 =? 0) with false by (symmetry; apply Z.eqb_neq; ediv).
  replace (_ / 64 =? 2) with false by (symmetry; apply Z.eqb_neq; ediv).
  replace (_ / 32 =? 6) with false by (symmetry; apply Z.eqb_neq; ediv).
  replace (_ / 32 =? 7) with true by (symmetry; apply Z.eqb_eq; ediv).
  rewrite (lor_shifted _ 8 256) by (reflexivity || lia || ediv).
  rewrite (lor_shifted _ 16 65536) by (reflexivity || lia || ediv).
  rewrite (lor_shifted _ 24 16777216) by (reflexivity || lia || ediv).
  f_equal. f_equal. ediv.
Qed.

Lemma sdvl_bytes_decode (v : Z) (bytes rest : list Z) :
  sdvl_bytes v = Some bytes ->
  sdvl_decode (bytes ++ rest) = Some (v, Z.of_nat (List.length bytes)).
Proof.
  unfold sdvl_bytes. intros H.
  destruct (Z.ltb_spec v 0) as [| H0]; [discriminate |].
  destruct (Z.ltb_spec v (2 ^ 7)) as [| H7].
  { injection H as <-. apply sdvl_decode_1. lia. }
  destruct (Z.ltb_spec v (2 ^ 14)) as [| H14].
  { injection H as <-. apply sdvl_decode_2. lia. }
  destruct (Z.ltb_spec v (2 ^ 21)) as [| H21].
  { injection H as <-. apply sdvl_decode_3. lia. }
  destruct (Z.ltb_spec v (2 ^ 29)) as [| H29]; [| discriminate].
  injection H as <-. apply sdvl_decode_4. lia.
Qed.

Lemma sdvl_bytes_length (v : Z) (bytes : list Z) :
  sdvl_bytes v = Some bytes ->
  c_bytesSdvl v (-1) = Some (Z.of_nat (List.length bytes)).
Proof.
  unfold sdvl_bytes, c_bytesSdvl. simpl negb. cbv iota.
  destruct (v <? 0); [discriminate |].
  destruct (v <? 2 ^ 7); [intros [= <-]; reflexivity |].
  destruct (v <? 2 ^ 14); [intros [= <-]; reflexivity |].
  destruct (v <? 2 ^ 21); [intros [= <-]; reflexivity |].
  destruct (v <? 2 ^ 29); [intros [= <-]; reflexivity | discriminate].
Qed.

Lemma c_bytesSdvl_bytes (v len : Z) :
  c_bytesSdvl v (-1) = Some len ->
  exists bytes, sdvl_bytes v = Some bytes /\ Z.of_nat (List.length bytes) = len.
Proof.
  unfold sdvl_bytes, c_bytesSdvl. simpl negb. cbv iota.
  destruct (v <? 0); [discriminate |].
  destruct (v <? 2 ^ 7); [intros [= <-]; eexists; split; reflexivity |].
  destruct (v <? 2 ^ 14); [intros [= <-]; eexists; split; reflexivity |].
  destruct (v <? 2 ^ 21); [intros [= <-]; eexists; split; reflexivity |].
  destruct (v <? 2 ^ 29); [intros [= <-]; eexists; split; reflexivity | discriminate].
Qed.

Lemma c_bytesSdvl_table (v : Z) :
  0 <= v < 2 ^ 29 ->
  c_bytesSdvl v (-1) =
    Some (if v <? 2 ^ 7 then 1 else if v <? 2 ^ 14 then 2
          else if v <? 2 ^ 21 then 3 else 4).
Proof.
  intros Hv. unfold c_bytesSdvl. simpl negb. cbv iota.
  destruct (Z.ltb_spec v 0); [lia |].
  destruct (v <? 2 ^ 7); [reflexivity |].
  destruct (v <? 2 ^ 14); [reflexivity |].
  destruct (v <? 2 ^ 21); [reflexivity |].
  destruct (Z.ltb_spec v (2 ^ 29)); [reflexivity | lia].
Qed.

(** The example of the specification: CID 300 is [0x81 0x2C]. *)
Example sdvl_bytes_300 : sdvl_bytes 300 = Some [0x81; 0x2C].
Proof. reflexivity. Qed.

Example sdvl_decode_300 : sdvl_decode [0x81; 0x2C; 0xAA] = Some (300, 2).
Proof. reflexivity. Qed.

Example sdvl_decode_truncated : sdvl_decode [0x81] = None.
Proof. reflexivity. Qed.

(** C7. SDVL encoding and then decoding an integer of [0, 2^29) gives it
    back; the encoding has 1 byte for a value of 7 bits, 2 for 14 bits, 3 for
    21 bits and 4 for 29 bits, and [c_encodeSdvl] writes as many bytes as
    [c_bytesSdvl] reports for the value, leaving the rest of the buffer. *)
Theorem sdvl_roundtrip (value : Z) (dest : list Z) :
  0 <= value < 2 ^ 29 ->
  exists (bytes : list Z) (len : Z),
    len = (if value <? 2 ^ 7 then 1 else if value <? 2 ^ 14 then 2
           else if value <? 2 ^ 21 then 3 else 4) /\
    c_bytesSdvl value (-1) = Some len /\
    sdvl_bytes value = Some bytes /\
    Z.of_nat (List.length bytes) = len /\
    c_encodeSdvl dest value (-1) =
      (if decide (List.length bytes <= List.length dest)%nat
       then Some (bytes ++ drop (List.length bytes) dest) else None) /\
    sdvl_decode (bytes ++ drop (List.length bytes) dest) = Some (value, len).
Proof.
  intros Hv.
  pose proof (c_bytesSdvl_table value Hv) as Hlen.
  destruct (c_bytesSdvl_bytes _ _ Hlen) as (bytes & Hbytes & Hl).
  exists bytes, (Z.of_nat (List.length bytes)).
  split; [exact Hl |]. split; [rewrite Hl; exact Hlen |].
  split; [exact Hbytes |]. split; [reflexivity |]. split.
  - unfold c_encodeSdvl. simpl negb. cbv iota. rewrite Hbytes. reflexivity.
  - apply sdvl_bytes_decode, Hbytes.
Qed.

Lemma sdvl_roundtrip_witness :
  exists (bytes : list Z) (len : Z),
    len = (if 300 <? 2 ^ 7 then 1 else if 300 <? 2 ^ 14 then 2
           else if 300 <? 2 ^ 21 then 3 else 4) /\
    c_bytesSdvl 300 (-1) = Some len /\
    sdvl_bytes 300 = Some bytes /\
    Z.of_nat (List.length bytes) = len /\
    c_encodeSdvl [0; 0; 0; 0] 300 (-1) =
      (if decide (List.length bytes <= List.length [0; 0; 0; 0])%nat
       then Some (bytes ++ drop (List.length bytes) [0; 0; 0; 0]) else None) /\
    sdvl_decode (bytes ++ drop (List.length bytes) [0; 0; 0; 0]) = Some (300, len).
Proof. apply (sdvl_roundtrip 300 [0; 0; 0; 0]). lia. Defined.

End SdvlFacts.

(** ** [code_cid_values] *)

Section CodeCidValuesFacts.
Import Comp Cid.

(** The facts of this section hold whatever the two functions of sdvl.c
    do. *)
Variable c_encodeSdvl : list Z -> Z -> Z -> option (list Z).
Variable c_bytesSdvl : Z -> Z -> option Z.

(** Small CID, positive: one store at position 0, undefined on an empty
    buffer. *)
Lemma code_cid_values_small_pos (context : c_context) (dest_size : Z) (m : mem) :
  cid_type (medium (compressor context)) = SMALL_CID ->
  0 < cid context ->
  code_cid_values c_encodeSdvl c_bytesSdvl context dest_size m =
    match dest m with
    | [] => None
    | _ :: tl => Some (2, {| dest := c_add_cid (cid context) :: tl;
                             first_position := 1 |})
    end.
Proof.
  intros Hsmall Hpos. unfold code_cid_values. rewrite Hsmall.
  assert ((cid context >? 0) = true) as -> by lia.
  unfold mbind, M_bind, mret, M_ret, store_dest, store_first_position.
  destruct (dest m) as [| b tl] eqn:Hd; simpl List.length.
  - reflexivity.
  - assert ((0 <=? 0) && (0 <? Z.of_nat (S (List.length tl))) = true) as ->.
    { apply andb_true_intro. split; [reflexivity | apply Z.ltb_lt; lia]. }
    reflexivity.
Qed.

(** Small CID, zero or negative: no store. *)
Lemma code_cid_values_small_nonpos (context : c_context) (dest_size : Z) (m : mem) :
  cid_type (medium (compressor context)) = SMALL_CID ->
  cid context <= 0 ->
  code_cid_values c_encodeSdvl c_bytesSdvl context dest_size m =
    Some (1, {| dest := dest m; first_position := 0 |}).
Proof.
  intros Hsmall Hle. unfold code_cid_values. rewrite Hsmall.
  assert ((cid context >? 0) = false) as -> by lia.
  reflexivity.
Qed.

(** Large CID: the encoder works on the buffer from position 1 on, then the
    length is asked for; undefined on an empty buffer or when a callee is. *)
Lemma code_cid_values_large_run (context : c_context) (dest_size : Z) (m : mem) :
  cid_type (medium (compressor context)) = LARGE_CID ->
  code_cid_values c_encodeSdvl c_bytesSdvl context dest_size m =
    match dest m with
    | [] => None
    | b :: tl =>
      match c_encodeSdvl tl (cid context) (-1), c_bytesSdvl (cid context) (-1) with
      | Some tl', Some len =>
        Some (1 + len, {| dest := b :: tl'; first_position := 0 |})
      | _, _ => None
      end
    end.
Proof.
  intros Hlarge. unfold code_cid_values. rewrite Hlarge.
  unfold mbind, M_bind, mret, M_ret, store_first_position, call_at_dest, call_pure.
  cbn [dest first_position].
  destruct (dest m) as [| b tl].
  - reflexivity.
  - assert ((0 <=? 0 + 1) && (0 + 1 <=? Z.of_nat (List.length (b :: tl))) = true) as ->.
    { apply andb_true_intro. split; [reflexivity |].
      apply Z.leb_le. simpl List.length. lia. }
    change (Z.to_nat (0 + 1)) with 1%nat.
    change (drop 1 (b :: tl)) with tl. change (take 1 (b :: tl)) with [b].
    change ([b] ++ ?x) with (b :: x).
    destruct (c_encodeSdvl tl (cid context) (-1)) as [tl' |]; [| reflexivity].
    destruct (c_bytesSdvl (cid context) (-1)) as [len |]; reflexivity.
Qed.

(** C2. On a small-CID channel, with the CID of the context in [1,15],
    [code_cid_values] writes the add-CID octet [0xE0 | (cid & 0x0F)] at
    position 0 of the destination buffer (the other bytes stay), sets
    [*first_position] to 1, the position right after the add-CID octet, and
    returns 2. *)
Theorem code_cid_values_small_add_cid
    (context : c_context) (dest_size : Z) (m : mem) :
  cid_type (medium (compressor context)) = SMALL_CID ->
  1 <= cid context <= 15 ->
  (0 < List.length (dest m))%nat ->
  code_cid_values c_encodeSdvl c_bytesSdvl context dest_size m =
    Some (2, {| dest := <[0%nat := Z.lor 0xE0 (Z.land (cid context) 0x0F)]> (dest m);
                first_position := 1 |}).
Proof.
  intros Hsmall Hcid Hlen.
  rewrite code_cid_values_small_pos by (assumption || lia).
  destruct (dest m) as [| b tl]; [simpl in Hlen; lia |].
  rewrite c_add_cid_lor. reflexivity.
Qed.

(** C3. On a small-CID channel, with the CID of the context equal to 0,
    [code_cid_values] emits no add-CID octet: it sets [*first_position] to 0
    and returns 1, the one position being that of the type octet. *)
Theorem code_cid_values_small_cid_0
    (context : c_context) (dest_size : Z) (m : mem) :
  cid_type (medium (compressor context)) = SMALL_CID ->
  cid context = 0 ->
  code_cid_values c_encodeSdvl c_bytesSdvl context dest_size m =
    Some (1, {| dest := dest m; first_position := 0 |}).
Proof.
  intros Hsmall Hcid. apply code_cid_values_small_nonpos; [assumption | lia].
Qed.

(** C4. On a large-CID channel [code_cid_values] keeps position 0 of the
    buffer for the type octet ([*first_position = 0], the byte there is not
    written), has the SDVL encoding of the CID written right after it (the
    encoder gets the buffer from position 1 on) and returns 1 plus the length
    in bytes that SDVL reports for the CID. *)
Theorem code_cid_values_large_cid
    (context : c_context) (dest_size : Z) (m : mem)
    (type_octet : Z) (rest rest' : list Z) (len : Z) :
  cid_type (medium (compressor context)) = LARGE_CID ->
  dest m = type_octet :: rest ->
  c_encodeSdvl rest (cid context) (-1) = Some rest' ->
  c_bytesSdvl (cid context) (-1) = Some len ->
  code_cid_values c_encodeSdvl c_bytesSdvl context dest_size m =
    Some (1 + len, {| dest := type_octet :: rest'; first_position := 0 |}).
Proof.
  intros Hlarge Hdest Henc Hlen.
  rewrite code_cid_values_large_run by exact Hlarge.
  rewrite Hdest, Henc, Hlen. reflexivity.
Qed.

(** C9. Two runs of [code_cid_values] that differ in [dest_size] only give
    the same bytes, the same [*first_position] and the same return value
    (and are undefined together): the function never reads [dest_size]. *)
Theorem code_cid_values_ignores_dest_size
    (context : c_context) (dest_size dest_size' : Z) (m : mem) :
  code_cid_values c_encodeSdvl c_bytesSdvl context dest_size m =
  code_cid_values c_encodeSdvl c_bytesSdvl context dest_size' m.
Proof. reflexivity. Qed.

(** C10. On a small-CID channel, with the CID of the context equal to 0,
    [code_cid_values] leaves every byte of the destination buffer as it was:
    its only effects are [*first_position = 0] and the returned 1. *)
Theorem code_cid_values_small_cid_0_frame
    (context : c_context) (dest_size : Z) (m : mem) :
  cid_type (medium (compressor context)) = SMALL_CID ->
  cid context = 0 ->
  exists m' : mem,
    code_cid_values c_encodeSdvl c_bytesSdvl context dest_size m = Some (1, m') /\
    first_position m' = 0 /\
    List.length (dest m') = List.length (dest m) /\
    (forall i : nat, dest m' !! i = dest m !! i).
Proof.
  intros Hsmall Hcid.
  exists {| dest := dest m; first_position := 0 |}.
  split; [apply code_cid_values_small_nonpos; [assumption | lia] |].
  repeat split.
Qed.

End CodeCidValuesFacts.

(** ** [code_cid_values] with the SDVL functions of the specification *)

Section CodeCidValuesSdvl.
Import Comp Cid.

(** On a large-CID channel, for a CID that SDVL encodes in [len] bytes and a
    buffer with room for [1 + len] bytes: the encoding is at positions
    1 .. [len], the other bytes stay, and decoding from position 1 gives the
    CID back. *)
Lemma code_cid_values_sdvl_large
    (context : c_context) (dest_size : Z) (m : mem) (len : Z) :
  cid_type (medium (compressor context)) = LARGE_CID ->
  Sdvl.c_bytesSdvl (cid context) (-1) = Some len ->
  1 + len <= Z.of_nat (List.length (dest m)) ->
  exists bytes : list Z,
    Sdvl.sdvl_bytes (cid context) = Some bytes /\
    Z.of_nat (List.length bytes) = len /\
    code_cid_values_sdvl context dest_size m =
      Some (1 + len,
            {| dest := take 1 (dest m) ++ bytes ++ drop (1 + List.length bytes) (dest m);
               first_position := 0 |}) /\
    Sdvl.sdvl_decode (bytes ++ drop (1 + List.length bytes) (dest m))
      = Some (cid context, len).
Proof.
  intros Hlarge Hlen Hroom.
  destruct (c_bytesSdvl_bytes _ _ Hlen) as (bytes & Hbytes & Hl).
  exists bytes. split; [exact Hbytes |]. split; [exact Hl |]. split.
  - unfold code_cid_values_sdvl.
    rewrite code_cid_values_large_run by exact Hlarge.
    destruct (dest m) as [| b tl]; [simpl in Hroom; lia |].
    unfold Sdvl.c_encodeSdvl. simpl negb. cbv iota.
    rewrite Hbytes, Hlen. simpl List.length in Hroom.
    cbn [mbind option_bind].
    destruct (decide (List.length bytes <= List.length tl)%nat) as [_ | Hn]; [| lia].
    reflexivity.
  - rewrite <- Hl. apply sdvl_bytes_decode, Hbytes.
Qed.

Example code_cid_values_small_5 :
  code_cid_values_sdvl (example_context SMALL_CID 5) 6 example_mem
  = Some (2, {| dest := [0xE5; 0x22; 0x33; 0x44; 0x55; 0x66]; first_position := 1 |}).
Proof. reflexivity. Qed.

(** No bounds check: with [dest_size] 0 the octet is written all the same. *)
Example code_cid_values_small_5_size_0 :
  code_cid_values_sdvl (example_context SMALL_CID 5) 0 example_mem
  = Some (2, {| dest := [0xE5; 0x22; 0x33; 0x44; 0x55; 0x66]; first_position := 1 |}).
Proof. reflexivity. Qed.

(** A small-CID context whose CID is above 15: the octet has its low nibble. *)
Example code_cid_values_small_21 :
  code_cid_values_sdvl (example_context SMALL_CID 21) 6 example_mem
  = Some (2, {| dest := [0xE5; 0x22; 0x33; 0x44; 0x55; 0x66]; first_position := 1 |}).
Proof. reflexivity. Qed.

Example code_cid_values_small_0 :
  code_cid_values_sdvl (example_context SMALL_CID 0) 6 example_mem
  = Some (1, {| dest := [0x11; 0x22; 0x33; 0x44; 0x55; 0x66]; first_position := 0 |}).
Proof. reflexivity. Qed.

(** The large CID of the specification: 300 goes out as [0x81 0x2C] after the
    position of the type octet. *)
Example code_cid_values_large_300 :
  code_cid_values_sdvl (example_context LARGE_CID 300) 6 example_mem
  = Some (3, {| dest := [0x11; 0x81; 0x2C; 0x44; 0x55; 0x66]; first_position := 0 |}).
Proof. reflexivity. Qed.

(** An empty buffer: the store of the add-CID octet is out of bounds. *)
Example code_cid_values_small_5_no_room :
  code_cid_values_sdvl (example_context SMALL_CID 5) 6
    {| dest := []; first_position := 77 |} = None.
Proof. reflexivity. Qed.

Lemma code_cid_values_small_add_cid_witness :
  code_cid_values Sdvl.c_encodeSdvl Sdvl.c_bytesSdvl
    (example_context SMALL_CID 5) 6 example_mem =
    Some (2, {| dest := <[0%nat := Z.lor 0xE0 (Z.land 5 0x0F)]> (dest example_mem);
                first_position := 1 |}).
Proof.
  apply (code_cid_values_small_add_cid Sdvl.c_encodeSdvl Sdvl.c_bytesSdvl
           (example_context SMALL_CID 5) 6 example_mem);
    [reflexivity | simpl; lia | simpl; lia].
Defined.

Lemma code_cid_values_small_cid_0_witness :
  code_cid_values Sdvl.c_encodeSdvl Sdvl.c_bytesSdvl
    (example_context SMALL_CID 0) 6 example_mem =
    Some (1, {| dest := dest example_mem; first_position := 0 |}).
Proof.
  apply (code_cid_values_small_cid_0 Sdvl.c_encodeSdvl Sdvl.c_bytesSdvl
           (example_context SMALL_CID 0) 6 example_mem); reflexivity.
Defined.

Lemma code_cid_values_large_cid_witness :
  code_cid_values Sdvl.c_encodeSdvl Sdvl.c_bytesSdvl
    (example_context LARGE_CID 300) 6 example_mem =
    Some (1 + 2, {| dest := 0x11 :: [0x81; 0x2C; 0x44; 0x55; 0x66];
                    first_position := 0 |}).
Proof.
  apply (code_cid_values_large_cid Sdvl.c_encodeSdvl Sdvl.c_bytesSdvl
           (example_context LARGE_CID 300) 6 example_mem
           0x11 [0x22; 0x33; 0x44; 0x55; 0x66] [0x81; 0x2C; 0x44; 0x55; 0x66] 2);
    reflexivity.
Defined.

Lemma code_cid_values_small_cid_0_frame_witness :
  exists m' : mem,
    code_cid_values Sdvl.c_encodeSdvl Sdvl.c_bytesSdvl
      (example_context SMALL_CID 0) 6 example_mem = Some (1, m') /\
    first_position m' = 0 /\
    List.length (dest m') = List.length (dest example_mem) /\
    (forall i : nat, dest m' !! i = dest example_mem !! i).
Proof.
  apply (code_cid_values_small_cid_0_frame Sdvl.c_encodeSdvl Sdvl.c_bytesSdvl
           (example_context SMALL_CID 0) 6 example_mem); reflexivity.
Defined.

End CodeCidValuesSdvl.

(** ** The tables of the list decompressor *)

Section ListDecompTables.
Import DGeneric.

Lemma length_omap_le {A B : Type} (f : A -> option B) (l : list A) :
  (List.length (omap f l) <= List.length l)%nat.
Proof.
  induction l as [| a l IH]; csimpl; [lia |].
  destruct (f a); csimpl; lia.
Qed.

Lemma array_get_in_range {A : Type} {n : Z} (a : array A n) (i : Z) :
  0 <= i < n -> is_Some (array_get a i).
Proof.
  intros Hi. unfold array_get.
  assert ((0 <=? i) = true) as -> by (apply Z.leb_le; lia).
  apply lookup_lt_is_Some. pose proof (elems_len a). lia.
Qed.

Lemma land_0x07_range (index : Z) : 0 <= Z.land index 0x07 < 8.
Proof.
  change 0x07 with (Z.ones 3). rewrite Z.land_ones by lia.
  apply Z.mod_pos_bound. reflexivity.
Qed.

(** C5. The window of list generations of the list decompressor holds at
    most 100 entries: [list_table] has [LIST_COMP_WINDOW] elements,
    [LIST_COMP_WINDOW] is 100, and 100 is no less than the minimum of 2 that
    the configuration asks for. *)
Theorem list_table_window_bound (d : list_decomp) :
  Z.of_nat (List.length (elems (list_table d))) = LIST_COMP_WINDOW /\
  LIST_COMP_WINDOW = 100 /\
  Z.of_nat (List.length (window_entries d)) <= 100 /\
  2 <= LIST_COMP_WINDOW.
Proof.
  pose proof (elems_len (list_table d)) as Hlen.
  pose proof (length_omap_le id (elems (list_table d))) as Hle.
  unfold window_entries. unfold LIST_COMP_WINDOW in *.
  repeat split; lia.
Qed.

(** C6. [based_table] and [trans_table] have [MAX_ITEM] = 15 slots each, and
    the preprocessor check lets [MAX_ITEM] through only when it is above 7,
    so every index of 3 bits designates a slot of either table. *)
Theorem item_tables_MAX_ITEM_slots (d : list_decomp) (index : Z) :
  MAX_ITEM = 15 /\
  Z.of_nat (List.length (elems (based_table d))) = MAX_ITEM /\
  Z.of_nat (List.length (elems (trans_table d))) = MAX_ITEM /\
  MAX_ITEM_check MAX_ITEM = cpp_ok /\
  (forall max_item : Z, MAX_ITEM_check max_item = cpp_ok <-> 7 < max_item) /\
  is_Some (array_get (based_table d) (Z.land index 0x07)) /\
  is_Some (array_get (trans_table d) (Z.land index 0x07)).
Proof.
  pose proof (land_0x07_range index) as Hi.
  split; [reflexivity |].
  split; [apply elems_len |].
  split; [apply elems_len |].
  split; [reflexivity |].
  split.
  - intros max_item. unfold MAX_ITEM_check.
    destruct (Z.leb_spec max_item 7); split; intros H'; (reflexivity || discriminate || lia).
  - split; apply array_get_in_range; unfold MAX_ITEM; lia.
Qed.

Example zeroed_window_empty : window_entries zeroed_list_decomp = [].
Proof. reflexivity. Qed.

Example zeroed_slot_7 : is_Some (array_get (based_table zeroed_list_decomp) 7).
Proof. eexists. reflexivity. Qed.

Example zeroed_slot_15 : array_get (based_table zeroed_list_decomp) 15 = None.
Proof. reflexivity. Qed.

Example MAX_ITEM_check_7 : MAX_ITEM_check 7 <> cpp_ok.
Proof. discriminate. Qed.

End ListDecompTables.

(** * Further properties of the code *)

(** ** [c_add_cid]: which arguments share an octet *)

Section AddCidMore.
Import Cid.

(** X1. Two arguments of [c_add_cid] give the same octet exactly when they
    are congruent modulo 16; so the CIDs 0..15 get sixteen different
    octets. *)
Theorem c_add_cid_same_iff (a b : Z) :
  c_add_cid a = c_add_cid b <-> a mod 16 = b mod 16.
Proof.
  rewrite !c_add_cid_eq. split; intros H; lia.
Qed.

End AddCidMore.

(** ** [code_cid_values] on a small-CID channel, for any CID *)

Section CodeCidValuesMore.
Import Comp Cid.

Variable c_encodeSdvl : list Z -> Z -> Z -> option (list Z).
Variable c_bytesSdvl : Z -> Z -> option Z.

(** X2. On a small-CID channel a CID above 15 is not refused: for every
    positive CID the octet [0xE0 + cid mod 16] goes to position 0, the other
    bytes stay, [*first_position] is 1 and 2 is returned. *)
Theorem code_cid_values_small_positive_cid
    (context : c_context) (dest_size : Z) (m : mem) :
  cid_type (medium (compressor context)) = SMALL_CID ->
  0 < cid context ->
  (0 < List.length (dest m))%nat ->
  code_cid_values c_encodeSdvl c_bytesSdvl context dest_size m =
    Some (2, {| dest := <[0%nat := 0xE0 + cid context mod 16]> (dest m);
                first_position := 1 |}).
Proof.
  intros Hsmall Hpos Hlen.
  rewrite code_cid_values_small_pos by assumption.
  destruct (dest m) as [| b tl]; [simpl in Hlen; lia |].
  rewrite c_add_cid_eq. reflexivity.
Qed.

(** X3. On a small-CID channel two contexts whose positive CIDs are
    congruent modulo 16 (5 and 21, say) give the same bytes, the same
    [*first_position] and the same return value, on any buffer. *)
Theorem code_cid_values_small_cid_alias
    (context context' : c_context) (dest_size dest_size' : Z) (m : mem) :
  cid_type (medium (compressor context)) = SMALL_CID ->
  cid_type (medium (compressor context')) = SMALL_CID ->
  0 < cid context ->
  0 < cid context' ->
  cid context mod 16 = cid context' mod 16 ->
  code_cid_values c_encodeSdvl c_bytesSdvl context dest_size m =
  code_cid_values c_encodeSdvl c_bytesSdvl context' dest_size' m.
Proof.
  intros Hsmall Hsmall' Hpos Hpos' Hcong.
  rewrite !code_cid_values_small_pos by assumption.
  rewrite !c_add_cid_eq, Hcong. reflexivity.
Qed.

(** X4. On a small-CID channel a negative CID is handled as CID 0: nothing
    is stored in the buffer, [*first_position] is 0 and 1 is returned, as
    for the same context with CID 0. *)
Theorem code_cid_values_small_negative_cid
    (context : c_context) (dest_size : Z) (m : mem) :
  cid_type (medium (compressor context)) = SMALL_CID ->
  cid context < 0 ->
  code_cid_values c_encodeSdvl c_bytesSdvl context dest_size m =
    Some (1, {| dest := dest m; first_position := 0 |}) /\
  code_cid_values c_encodeSdvl c_bytesSdvl context dest_size m =
  code_cid_values c_encodeSdvl c_bytesSdvl
    {| cid := 0; compressor := compressor context |} dest_size m.
Proof.
  intros Hsmall Hneg.
  rewrite !code_cid_values_small_nonpos by (assumption || simpl; lia).
  split; reflexivity.
Qed.

(** X5. On a small-CID channel the run is undefined in one case only: a
    positive CID with an empty buffer (the store of the add-CID octet is out
    of bounds). *)
Theorem code_cid_values_small_undefined_iff
    (context : c_context) (dest_size : Z) (m : mem) :
  cid_type (medium (compressor context)) = SMALL_CID ->
  (code_cid_values c_encodeSdvl c_bytesSdvl context dest_size m = None <->
   0 < cid context /\ dest m = []).
Proof.
  intros Hsmall.
  destruct (Z.lt_ge_cases 0 (cid context)) as [Hpos | Hle].
  - rewrite code_cid_values_small_pos by assumption.
    destruct (dest m) as [| b tl]; split.
    + intros _. split; [exact Hpos | reflexivity].
    + reflexivity.
    + discriminate.
    + intros [_ Hnil]. discriminate.
  - rewrite code_cid_values_small_nonpos by assumption.
    split; [discriminate | intros [Hpos _]; lia].
Qed.

(** X6. On a small-CID channel a run never changes the length of the buffer
    and never writes past position 0: every byte at a position of 1 or more
    is as before. *)
Theorem code_cid_values_small_frame
    (context : c_context) (dest_size : Z) (m m' : mem) (r : Z) :
  cid_type (medium (compressor context)) = SMALL_CID ->
  code_cid_values c_encodeSdvl c_bytesSdvl context dest_size m = Some (r, m') ->
  List.length (dest m') = List.length (dest m) /\
  (forall i : nat, (0 < i)%nat -> dest m' !! i = dest m !! i).
Proof.
  intros Hsmall Hrun.
  destruct (Z.lt_ge_cases 0 (cid context)) as [Hpos | Hle].
  - rewrite code_cid_values_small_pos in Hrun by assumption.
    destruct (dest m) as [| b tl]; [discriminate |].
    injection Hrun as _ <-. cbn [dest]. split; [reflexivity |].
    intros [| i] Hi; [lia | reflexivity].
  - rewrite code_cid_values_small_nonpos in Hrun by assumption.
    injection Hrun as _ <-. cbn [dest]. split; [reflexivity |].
    intros i _. reflexivity.
Qed.

(** X7. On a small-CID channel the returned position is always one past
    [*first_position], and [*first_position] is 1 exactly for a positive CID
    and 0 otherwise: only the position of the type octet follows the
    optional add-CID octet. *)
Theorem code_cid_values_small_positions
    (context : c_context) (dest_size : Z) (m m' : mem) (r : Z) :
  cid_type (medium (compressor context)) = SMALL_CID ->
  code_cid_values c_encodeSdvl c_bytesSdvl context dest_size m = Some (r, m') ->
  r = first_position m' + 1 /\
  (first_position m' = 1 <-> 0 < cid context) /\
  (first_position m' = 0 <-> cid context <= 0).
Proof.
  intros Hsmall Hrun.
  destruct (Z.lt_ge_cases 0 (cid context)) as [Hpos | Hle].
  - rewrite code_cid_values_small_pos in Hrun by assumption.
    destruct (dest m) as [| b tl]; [discriminate |].
    injection Hrun as <- <-. cbn [first_position].
    repeat split; intros; lia.
  - rewrite code_cid_values_small_nonpos in Hrun by assumption.
    injection Hrun as <- <-. cbn [first_position].
    repeat split; intros; lia.
Qed.

(** X8. [*first_position] is an output only: on either kind of channel the
    outcome of a run (bytes, [*first_position], return value, or undefined)
    is the same whatever [*first_position] held before the call. *)
Theorem code_cid_values_first_position_out
    (context : c_context) (dest_size : Z) (buf : list Z) (before before' : Z) :
  code_cid_values c_encodeSdvl c_bytesSdvl context dest_size
    {| dest := buf; first_position := before |} =
  code_cid_values c_encodeSdvl c_bytesSdvl context dest_size
    {| dest := buf; first_position := before' |}.
Proof.
  destruct (cid_type (medium (compressor context))) eqn:Hty.
  - rewrite !code_cid_values_large_run by exact Hty. reflexivity.
  - destruct (Z.lt_ge_cases 0 (cid context)) as [Hpos | Hle].
    + rewrite !code_cid_values_small_pos by assumption. reflexivity.
    + rewrite !code_cid_values_small_nonpos by assumption. reflexivity.
Qed.

(** X9. On a small-CID channel a second run on the memory the first run
    left, with any [dest_size], changes nothing more and returns the same
    position. *)
Theorem code_cid_values_small_idempotent
    (context : c_context) (dest_size dest_size' : Z) (m m' : mem) (r : Z) :
  cid_type (medium (compressor context)) = SMALL_CID ->
  code_cid_values c_encodeSdvl c_bytesSdvl context dest_size m = Some (r, m') ->
  code_cid_values c_encodeSdvl c_bytesSdvl context dest_size' m' = Some (r, m').
Proof.
  intros Hsmall Hrun.
  destruct (Z.lt_ge_cases 0 (cid context)) as [Hpos | Hle].
  - rewrite code_cid_values_small_pos in * by assumption.
    destruct (dest m) as [| b tl]; [discriminate |].
    injection Hrun as <- <-. reflexivity.
  - rewrite code_cid_values_small_nonpos in * by assumption.
    injection Hrun as <- <-. reflexivity.
Qed.

(** X10. Success does not mean that the position given for the type octet
    is inside the buffer: on a small-CID channel, with a positive CID and a
    buffer of one byte, the run succeeds, returns 2 and leaves
    [*first_position] equal to the length of the buffer. *)
Theorem code_cid_values_small_position_past_end
    (context : c_context) (dest_size : Z) (m : mem) :
  cid_type (medium (compressor context)) = SMALL_CID ->
  0 < cid context ->
  List.length (dest m) = 1%nat ->
  exists m' : mem,
    code_cid_values c_encodeSdvl c_bytesSdvl context dest_size m = Some (2, m') /\
    first_position m' = Z.of_nat (List.length (dest m')) /\
    dest m' !! Z.to_nat (first_position m') = None.
Proof.
  intros Hsmall Hpos Hlen.
  rewrite code_cid_values_small_pos by assumption.
  destruct (dest m) as [| b [| b' tl]]; try discriminate.
  eexists. split; [reflexivity |]. split; reflexivity.
Qed.

End CodeCidValuesMore.

Section CodeCidValuesMoreWitnesses.
Import Comp Cid.

Lemma code_cid_values_small_positive_cid_witness :
  code_cid_values Sdvl.c_encodeSdvl Sdvl.c_bytesSdvl
    (example_context SMALL_CID 21) 6 example_mem =
    Some (2, {| dest := <[0%nat := 0xE0 + 21 mod 16]> (dest example_mem);
                first_position := 1 |}).
Proof.
  apply (code_cid_values_small_positive_cid Sdvl.c_encodeSdvl Sdvl.c_bytesSdvl
           (example_context SMALL_CID 21) 6 example_mem);
    [reflexivity | reflexivity | simpl; lia].
Defined.

Lemma code_cid_values_small_cid_alias_witness :
  code_cid_values Sdvl.c_encodeSdvl Sdvl.c_bytesSdvl
    (example_context SMALL_CID 5) 6 example_mem =
  code_cid_values Sdvl.c_encodeSdvl Sdvl.c_bytesSdvl
    (example_context SMALL_CID 21) 0 example_mem.
Proof.
  apply (code_cid_values_small_cid_alias Sdvl.c_encodeSdvl Sdvl.c_bytesSdvl
           (example_context SMALL_CID 5) (example_context SMALL_CID 21)
           6 0 example_mem); reflexivity.
Defined.

Lemma code_cid_values_small_negative_cid_witness :
  code_cid_values Sdvl.c_encodeSdvl Sdvl.c_bytesSdvl
    (example_context SMALL_CID (-3)) 6 example_mem =
    Some (1, {| dest := dest example_mem; first_position := 0 |}) /\
  code_cid_values Sdvl.c_encodeSdvl Sdvl.c_bytesSdvl
    (example_context SMALL_CID (-3)) 6 example_mem =
  code_cid_values Sdvl.c_encodeSdvl Sdvl.c_bytesSdvl
    {| cid := 0; compressor := compressor (example_context SMALL_CID (-3)) |}
    6 example_mem.
Proof.
  apply (code_cid_values_small_negative_cid Sdvl.c_encodeSdvl Sdvl.c_bytesSdvl
           (example_context SMALL_CID (-3)) 6 example_mem); reflexivity.
Defined.

Lemma code_cid_values_small_undefined_iff_witness :
  code_cid_values Sdvl.c_encodeSdvl Sdvl.c_bytesSdvl
    (example_context SMALL_CID 5) 6 {| dest := []; first_position := 77 |} = None <->
  0 < cid (example_context SMALL_CID 5) /\
  dest {| dest := []; first_position := 77 |} = [].
Proof.
  apply (code_cid_values_small_undefined_iff Sdvl.c_encodeSdvl Sdvl.c_bytesSdvl
           (example_context SMALL_CID 5) 6 {| dest := []; first_position := 77 |}).
  reflexivity.
Defined.

Lemma code_cid_values_small_frame_witness :
  List.length
    (dest {| dest := [0xE5; 0x22; 0x33; 0x44; 0x55; 0x66]; first_position := 1 |})
  = List.length (dest example_mem) /\
  (forall i : nat, (0 < i)%nat ->
     dest {| dest := [0xE5; 0x22; 0x33; 0x44; 0x55; 0x66]; first_position := 1 |} !! i
     = dest example_mem !! i).
Proof.
  apply (code_cid_values_small_frame Sdvl.c_encodeSdvl Sdvl.c_bytesSdvl
           (example_context SMALL_CID 5) 6 example_mem
           {| dest := [0xE5; 0x22; 0x33; 0x44; 0x55; 0x66]; first_position := 1 |} 2);
    reflexivity.
Defined.

Lemma code_cid_values_small_positions_witness :
  2 = first_position
        {| dest := [0xE5; 0x22; 0x33; 0x44; 0x55; 0x66]; first_position := 1 |} + 1 /\
  (first_position
     {| dest := [0xE5; 0x22; 0x33; 0x44; 0x55; 0x66]; first_position := 1 |} = 1
   <-> 0 < cid (example_context SMALL_CID 5)) /\
  (first_position
     {| dest := [0xE5; 0x22; 0x33; 0x44; 0x55; 0x66]; first_position := 1 |} = 0
   <-> cid (example_context SMALL_CID 5) <= 0).
Proof.
  apply (code_cid_values_small_positions Sdvl.c_encodeSdvl Sdvl.c_bytesSdvl
           (example_context SMALL_CID 5) 6 example_mem
           {| dest := [0xE5; 0x22; 0x33; 0x44; 0x55; 0x66]; first_position := 1 |} 2);
    reflexivity.
Defined.

Lemma code_cid_values_small_idempotent_witness :
  code_cid_values Sdvl.c_encodeSdvl Sdvl.c_bytesSdvl
    (example_context SMALL_CID 5) 0
    {| dest := [0xE5; 0x22; 0x33; 0x44; 0x55; 0x66]; first_position := 1 |} =
    Some (2, {| dest := [0xE5; 0x22; 0x33; 0x44; 0x55; 0x66]; first_position := 1 |}).
Proof.
  apply (code_cid_values_small_idempotent Sdvl.c_encodeSdvl Sdvl.c_bytesSdvl
           (example_context SMALL_CID 5) 6 0 example_mem
           {| dest := [0xE5; 0x22; 0x33; 0x44; 0x55; 0x66]; first_position := 1 |} 2);
    reflexivity.
Defined.

Lemma code_cid_values_small_position_past_end_witness :
  exists m' : mem,
    code_cid_values Sdvl.c_encodeSdvl Sdvl.c_bytesSdvl
      (example_context SMALL_CID 5) 1 {| dest := [0x11]; first_position := 77 |}
      = Some (2, m') /\
    first_position m' = Z.of_nat (List.length (dest m')) /\
    dest m' !! Z.to_nat (first_position m') = None.
Proof.
  apply (code_cid_values_small_position_past_end Sdvl.c_encodeSdvl Sdvl.c_bytesSdvl
           (example_context SMALL_CID 5) 1 {| dest := [0x11]; first_position := 77 |});
    reflexivity.
Defined.

End CodeCidValuesMoreWitnesses.

(** ** comp_list.h: the kinds of extension header *)

Section ExtHeaderVersion.
Import CompList.

(** X11. The four enumerators of [ext_header_version] have four different
    values, each one that fits a byte; the value 10 of the CSRC entry, which
    is compiled out, is none of them. *)
Theorem ext_header_version_value_distinct (v w : ext_header_version) :
  (ext_header_version_value v = ext_header_version_value w <-> v = w) /\
  0 <= ext_header_version_value v <= 255 /\
  ext_header_version_value v <> 10.
Proof.
  split; [| destruct v; simpl; lia].
  split; [| intros ->; reflexivity].
  destruct v, w; simpl; intros H; (reflexivity || discriminate).
Qed.

End ExtHeaderVersion.
